(** * Terraria_Clone: a shallow embedding of the world simulation core

    The JavaScript prototype keeps its state in module-level singletons
    ([world], [player], [gameState]).  Each is modelled here as an explicit
    value that the embedded functions take and return.

    - JS numbers that only ever hold integers (tile ids, tile coordinates,
      the PRNG state) are [Z].
    - Continuous quantities (positions, velocities, health, timers) are [Q]:
      the exact arithmetic on which the IEEE doubles of the source agree at
      every concrete input used below (small integers and halves).
    - [Math.random()] is an explicit argument (one value in [0,1) per draw),
      since it is a process-wide unseeded source. *)

From Stdlib Require Import ZArith QArith Qround Qminmax Qabs Lia Bool.
From stdpp Require Import base list gmap strings.

Open Scope Z_scope.

(** JS [<] on numbers. *)
Definition Qltb (p q : Q) : bool := negb (Qle_bool q p).

(** ** Configuration (part_001, lines 10-38) *)

Definition TILE_SIZE : Z := 24.
Definition WORLD_WIDTH : Z := 200.
Definition WORLD_HEIGHT : Z := 120.

Definition AIR : Z := 0.
Definition GRASS : Z := 1.
Definition DIRT : Z := 2.
Definition STONE : Z := 3.
Definition WOOD : Z := 4.
Definition SAND : Z := 5.
Definition GLASS : Z := 6.
Definition TORCH : Z := 7.
Definition BRICK : Z := 8.

(** Reading a cell a JS array does not hold yields [undefined]; it only
    arises on a grid that is not [WORLD_HEIGHT] rows of [WORLD_WIDTH]. *)
Definition UNDEFINED : Z := -1.

(** [world[y][x]]: a list of rows. *)
Abbreviation grid := (list (list Z)).

Definition init_world : grid :=
  repeat (repeat AIR (Z.to_nat WORLD_WIDTH)) (Z.to_nat WORLD_HEIGHT).

Definition read (w : grid) (x y : Z) : Z :=
  match w !! Z.to_nat y ≫= (fun row => row !! Z.to_nat x) with
  | Some t => t
  | None => UNDEFINED
  end.

(** [world[y][x] = id] on an in-range cell. *)
Definition write (w : grid) (x y id : Z) : grid :=
  match w !! Z.to_nat y with
  | Some row => <[Z.to_nat y := <[Z.to_nat x := id]> row]> w
  | None => w
  end.

(** ** World helpers (part_001 lines 155-168, main.js lines 99-112) *)

Definition inBounds (tx ty : Z) : bool :=
  (0 <=? tx) && (0 <=? ty) && (tx <? WORLD_WIDTH) && (ty <? WORLD_HEIGHT).

Definition isSolid (tileId : Z) : bool := negb (tileId =? AIR).

Definition getTile (w : grid) (tx ty : Z) : Z :=
  if negb (inBounds tx ty) then STONE else read w tx ty.

Definition setTile (w : grid) (tx ty id : Z) : grid :=
  if negb (inBounds tx ty) then w else write w tx ty id.

(** ** mulberry32 (part_001 lines 63-70)

    The closure's state [a] is a JS number that only grows by the integer
    [0x6d2b79f5]; every bitwise operator and [Math.imul] works on it modulo
    2^32, so [t] is kept as its unsigned 32-bit pattern. One call returns the
    new state and the 32-bit integer [u]; the JS result is [u / 2^32]. *)

Definition u32 (z : Z) : Z := z mod 2 ^ 32.

Definition mulberry32 (a : Z) : Z * Z :=
  let a' := a + 1831565813 in
  let t := u32 a' in
  let t := u32 (Z.lxor t (Z.shiftr t 15) * Z.lor t 1) in
  let t := Z.lxor t (u32 (t + u32 (Z.lxor t (Z.shiftr t 7) * Z.lor t 61))) in
  (a', Z.lxor t (Z.shiftr t 14)).

(** [rand() < p/q], [Math.floor(rand() * k)] and [Math.sign(rand() - 0.5)]
    on the integer [u]. *)
Definition rand_lt (u p q : Z) : bool := u * q <? p * 2 ^ 32.
Definition rand_floor (u k : Z) : Z := (u * k) / 2 ^ 32.
Definition rand_sign_centered (u : Z) : Z := Z.sgn (u - 2 ^ 31).

(** ** generateWorld (part_001 lines 72-152) *)

(** The heightmap random walk: per column, one draw for the direction and
    one for the 55% coin; clamped to [20, WORLD_HEIGHT - 15]. *)
Fixpoint heights_loop (n : nat) (a h : Z) : list Z * Z :=
  match n with
  | O => ([], a)
  | S n' =>
      let '(a1, u_step) := mulberry32 a in
      let '(a2, u_coin) := mulberry32 a1 in
      let h1 := h + rand_sign_centered u_step
                    * (if rand_lt u_coin 55 100 then 1 else 0) in
      let h2 := Z.max 20 (Z.min (WORLD_HEIGHT - 15) h1) in
      let '(hs, a3) := heights_loop n' a2 h2 in
      (h2 :: hs, a3)
  end.

(** [Math.floor(WORLD_HEIGHT * 0.55)] *)
Definition base_height : Z := 66.

Inductive biome := Forest | Desert.

Definition switch_biome (b : biome) : biome :=
  match b with Forest => Desert | Desert => Forest end.

(** The biome runs: [biomeLength] is drawn before the loop and redrawn at
    each switch. *)
Fixpoint biomes_loop (n : nat) (a : Z) (cur : biome) (len : Z)
  : list biome * Z :=
  match n with
  | O => ([], a)
  | S n' =>
      let '(cur', len', a') :=
        if len <=? 0 then
          let '(a1, u) := mulberry32 a in
          (switch_biome cur, 20 + rand_floor u 30, a1)
        else (cur, len, a) in
      let '(bs, a2) := biomes_loop n' a' cur' (len' - 1) in
      (cur' :: bs, a2)
  end.

(** The tile the layering loop writes at row [y] of a column. *)
Definition layer_tile (b : biome) (groundY y : Z) : Z :=
  if groundY + 20 <? y then STONE
  else if groundY + 3 <? y then DIRT
  else if y =? groundY then
    (match b with Desert => SAND | Forest => GRASS end)
  else if (groundY <? y) && (y <=? groundY + 3) then
    (match b with Desert => SAND | Forest => DIRT end)
  else AIR.

(** [for (let y = 0; y < WORLD_HEIGHT; y++) world[y][x] = ...] *)
Fixpoint layer_column (n : nat) (w : grid) (tile_at : Z -> Z) (x y : Z)
  : grid :=
  match n with
  | O => w
  | S n' => layer_column n' (write w x y (tile_at y)) tile_at x (y + 1)
  end.

(** The inner [xx] loop of a stone patch: stone over every non-Air cell. *)
Fixpoint patch_row (n : nat) (w : grid) (xx yy : Z) : grid :=
  match n with
  | O => w
  | S n' =>
      let w' := if negb (read w xx yy =? AIR) then write w xx yy STONE else w in
      patch_row n' w' (xx + 1) yy
  end.

Definition loop_count (from lim1 lim2 : Z) : nat :=
  Z.to_nat (Z.min lim1 lim2 - from).

(** [for (yy = sy; yy < sy + sh && yy < WORLD_HEIGHT; yy++)
       for (xx = x; xx < x + sw && xx < WORLD_WIDTH; xx++) ...] *)
Fixpoint patch_rows (n : nat) (w : grid) (x sw yy : Z) : grid :=
  match n with
  | O => w
  | S n' =>
      patch_rows n' (patch_row (loop_count x (x + sw) WORLD_WIDTH) w x yy) x sw (yy + 1)
  end.

Definition stone_patch (w : grid) (x sy sh sw : Z) : grid :=
  patch_rows (loop_count sy (sy + sh) WORLD_HEIGHT) w x sw sy.

(** The trunk loop: [treeY = groundY - ty - 1], written when [treeY >= 0]. *)
Fixpoint trunk (n : nat) (w : grid) (x groundY ty : Z) : grid :=
  match n with
  | O => w
  | S n' =>
      let treeY := groundY - ty - 1 in
      let w' := if 0 <=? treeY then write w x treeY WOOD else w in
      trunk n' w' x groundY (ty + 1)
  end.

(** One iteration of the column loop: layering, the stone patch (one draw
    for the 10% test, three more when it succeeds), the forest trunk (the
    3% draw only happens in forest columns, by short-circuit). *)
Definition gen_column (w : grid) (a : Z) (x groundY : Z) (b : biome)
  : grid * Z :=
  let w := layer_column (Z.to_nat WORLD_HEIGHT) w (layer_tile b groundY) x 0 in
  let '(a, u) := mulberry32 a in
  let '(w, a) :=
    if rand_lt u 1 10 then
      let '(a, u1) := mulberry32 a in
      let '(a, u2) := mulberry32 a in
      let '(a, u3) := mulberry32 a in
      let sy := groundY + 5 + rand_floor u1 10 in
      let sh := 3 + rand_floor u2 4 in
      let sw := 3 + rand_floor u3 6 in
      (stone_patch w x sy sh sw, a)
    else (w, a) in
  match b with
  | Forest =>
      let '(a, u) := mulberry32 a in
      if rand_lt u 3 100 then
        let '(a, u1) := mulberry32 a in
        let treeHeight := 5 + rand_floor u1 3 in
        (trunk (Z.to_nat treeHeight) w x groundY 0, a)
      else (w, a)
  | Desert => (w, a)
  end.

Fixpoint columns_loop (w : grid) (a : Z) (x : Z) (hs : list Z) (bs : list biome)
  : grid * Z :=
  match hs, bs with
  | h :: hs', b :: bs' =>
      let '(w', a') := gen_column w a x h b in
      columns_loop w' a' (x + 1) hs' bs'
  | _, _ => (w, a)
  end.

(** [generateWorld(seed)] updates the global [world] in place: it takes the
    grid it starts from and returns the grid it leaves. *)
Definition generateWorld (seed : Z) (w : grid) : grid :=
  let '(heights, a) := heights_loop (Z.to_nat WORLD_WIDTH) seed base_height in
  let '(a, u) := mulberry32 a in
  let '(biomes, a) :=
    biomes_loop (Z.to_nat WORLD_WIDTH) a Forest (20 + rand_floor u 30) in
  fst (columns_loop w a 0 heights biomes).

(** ** generateWorld of src/main.js (lines 55-96)

    The same heightmap walk, no biomes, and the stone-patch test drawn from
    [Math.random()] instead of the seeded [rand()]; [mr x] is the value that
    unseeded draw returns in column [x]. *)
Definition layer_tile_main (groundY y : Z) : Z :=
  if groundY + 20 <? y then STONE
  else if groundY + 3 <? y then DIRT
  else if y =? groundY then GRASS
  else if (groundY <? y) && (y <=? groundY + 3) then DIRT
  else AIR.

Definition gen_column_main (mr : Z -> Q) (w : grid) (a : Z) (x groundY : Z)
  : grid * Z :=
  let w := layer_column (Z.to_nat WORLD_HEIGHT) w (layer_tile_main groundY) x 0 in
  if Qltb (mr x) (1 # 10) then
    let '(a, u1) := mulberry32 a in
    let '(a, u2) := mulberry32 a in
    let '(a, u3) := mulberry32 a in
    let sy := groundY + 5 + rand_floor u1 10 in
    let sh := 3 + rand_floor u2 4 in
    let sw := 3 + rand_floor u3 6 in
    (stone_patch w x sy sh sw, a)
  else (w, a).

Fixpoint columns_loop_main (mr : Z -> Q) (w : grid) (a : Z) (x : Z) (hs : list Z)
  : grid * Z :=
  match hs with
  | h :: hs' =>
      let '(w', a') := gen_column_main mr w a x h in
      columns_loop_main mr w' a' (x + 1) hs'
  | [] => (w, a)
  end.

Definition generateWorld_main (mr : Z -> Q) (seed : Z) (w : grid) : grid :=
  let '(heights, a) := heights_loop (Z.to_nat WORLD_WIDTH) seed base_height in
  fst (columns_loop_main mr w a 0 heights).

(** ** spawnPlayerOnSurface (part_001 lines 1195-1204)

    [tile_at] is [getTile] on the current world. Only the position is
    written; [None] is the scan finding no Grass, in which case the player
    is left where it was. *)
Fixpoint spawn_scan (n : nat) (tile_at : Z -> Z -> Z) (y : Z) : option (Q * Q) :=
  match n with
  | O => None
  | S n' =>
      if tile_at (WORLD_WIDTH / 2) y =? GRASS
      then Some (inject_Z WORLD_WIDTH / 2 * inject_Z TILE_SIZE,
                 inject_Z ((y - 2) * TILE_SIZE))%Q
      else spawn_scan n' tile_at (y + 1)
  end.

Definition spawnPlayerOnSurface (tile_at : Z -> Z -> Z) (pos : Q * Q) : Q * Q :=
  match spawn_scan (Z.to_nat WORLD_HEIGHT) tile_at 0 with
  | Some p => p
  | None => pos
  end.

(** ** Collision: aabbVsTiles (part_001 lines 286-351, main.js 186-251)

    The resolver only reads the grid, through [getTile]; it is stated over
    that reading function [tile_at], instantiated with [getTile w] by the
    game step. *)

Definition TS : Q := inject_Z TILE_SIZE.

(** [Math.sign] on a non-zero number. *)
Definition Qsign (q : Q) : Q := if Qltb 0 q then 1%Q else (-1)%Q.

(** [ty = lo; ty <= hi; ty++] *)
Fixpoint zrange (lo : Z) (n : nat) : list Z :=
  match n with
  | O => []
  | S n' => lo :: zrange (lo + 1) n'
  end.

Definition span (lo hi : Z) : list Z := zrange lo (Z.to_nat (hi - lo + 1)).

Record resolution := {
  res_x : Q; res_y : Q; res_grounded : bool; res_hitX : bool; res_hitY : bool
}.

(** Iterations a sweep of length [ad] in increments [s] can make: the
    loops below test [moved < ad] themselves; this only bounds them. *)
Definition sweep_fuel (ad s : Q) : nat := S (Z.to_nat (Qceiling (ad / s))).

Section Resolver.

Variable tile_at : Z -> Z -> Z.

(** The inner [for] loops, which break at the first solid tile. *)
Definition solid_in_column (tx top bottom : Z) : bool :=
  existsb (fun ty => isSolid (tile_at tx ty)) (span top bottom).

Definition solid_in_row (ty left right : Z) : bool :=
  existsb (fun tx => isSolid (tile_at tx ty)) (span left right).

(** The horizontal loop; [inl newX] when it runs to the end, [inr r] for
    the early [return] on contact. [ad] is [Math.abs(dx)], [s] is
    [Math.abs(step)]. *)
Fixpoint sweep_x (fuel : nat) (px py pw ph ad dir s moved newX : Q)
  : Q + resolution :=
  match fuel with
  | O => inl newX
  | S fuel' =>
      if Qltb moved ad then
        let nextX := (px + Qmin ad (moved + s) * dir)%Q in
        let left := Qfloor ((nextX - pw / 2) / TS) in
        let right := Qfloor ((nextX + pw / 2) / TS) in
        let top := Qfloor ((py - ph / 2) / TS) in
        let bottom := Qfloor ((py + ph / 2 - 1) / TS) in
        let tx := if Qltb 0 dir then right else left in
        if solid_in_column tx top bottom then
          inr {| res_x := if Qltb 0 dir then (inject_Z right * TS - pw / 2)%Q
                          else (inject_Z (left + 1) * TS + pw / 2)%Q;
                 res_y := py; res_grounded := false;
                 res_hitX := true; res_hitY := false |}
        else sweep_x fuel' px py pw ph ad dir s (moved + s)%Q nextX
      else inl newX
  end.

(** The vertical loop, at the already resolved [newX]. *)
Fixpoint sweep_y (fuel : nat) (newX py pw ph ad dir s moved newY : Q)
  : resolution :=
  match fuel with
  | O => {| res_x := newX; res_y := newY; res_grounded := false;
            res_hitX := false; res_hitY := false |}
  | S fuel' =>
      if Qltb moved ad then
        let nextY := (py + Qmin ad (moved + s) * dir)%Q in
        let left := Qfloor ((newX - pw / 2) / TS) in
        let right := Qfloor ((newX + pw / 2) / TS) in
        let top := Qfloor ((nextY - ph / 2) / TS) in
        let bottom := Qfloor ((nextY + ph / 2 - 1) / TS) in
        let ty := if Qltb 0 dir then bottom else top in
        if solid_in_row ty left right then
          if Qltb 0 dir then
            {| res_x := newX; res_y := (inject_Z bottom * TS - ph / 2)%Q;
               res_grounded := true; res_hitX := false; res_hitY := true |}
          else
            {| res_x := newX; res_y := (inject_Z (top + 1) * TS + ph / 2)%Q;
               res_grounded := false; res_hitX := false; res_hitY := true |}
        else sweep_y fuel' newX py pw ph ad dir s (moved + s)%Q nextY
      else {| res_x := newX; res_y := newY; res_grounded := false;
              res_hitX := false; res_hitY := false |}
  end.

Definition aabbVsTiles (px py pw ph dx dy : Q) : resolution :=
  let newX := (px + dx)%Q in
  let newY := (py + dy)%Q in
  let horiz :=
    if negb (Qeq_bool dx 0) then
      let s := Qmin (Qabs dx) TS in
      sweep_x (sweep_fuel (Qabs dx) s) px py pw ph (Qabs dx) (Qsign dx) s 0 newX
    else inl newX in
  match horiz with
  | inr r => r
  | inl newX =>
      if negb (Qeq_bool dy 0) then
        let s := Qmin (Qabs dy) TS in
        sweep_y (sweep_fuel (Qabs dy) s) newX py pw ph (Qabs dy) (Qsign dy) s 0 newY
      else {| res_x := newX; res_y := newY; res_grounded := false;
              res_hitX := false; res_hitY := false |}
  end.

End Resolver.

Open Scope Q_scope.

(** ** The player (part_001 lines 171-185)

    [anim] only feeds the sprite and is left out. [wasOnGround] is absent
    from the literal and first read as [undefined], which is falsy. *)
Record player := {
  x : Q; y : Q; vx : Q; vy : Q; width : Q; height : Q;
  onGround : bool; wasOnGround : bool; facing : Q;
  health : Q; maxHealth : Q; invulnerableTime : Q; lastDamageTime : Q
}.

Definition initial_player : player := {|
  x := inject_Z WORLD_WIDTH / 2 * inject_Z TILE_SIZE; y := 0; vx := 0; vy := 0;
  width := 18; height := 34; onGround := false; wasOnGround := false;
  facing := 1; health := 100; maxHealth := 100; invulnerableTime := 0;
  lastDamageTime := 0 |}.

Definition set_pos (p : player) (nx ny : Q) : player :=
  {| x := nx; y := ny; vx := vx p; vy := vy p; width := width p;
     height := height p; onGround := onGround p; wasOnGround := wasOnGround p;
     facing := facing p; health := health p; maxHealth := maxHealth p;
     invulnerableTime := invulnerableTime p; lastDamageTime := lastDamageTime p |}.

Definition set_vel (p : player) (nvx nvy : Q) (g : bool) : player :=
  {| x := x p; y := y p; vx := nvx; vy := nvy; width := width p;
     height := height p; onGround := g; wasOnGround := wasOnGround p;
     facing := facing p; health := health p; maxHealth := maxHealth p;
     invulnerableTime := invulnerableTime p; lastDamageTime := lastDamageTime p |}.

Definition set_facing (p : player) (f : Q) : player :=
  {| x := x p; y := y p; vx := vx p; vy := vy p; width := width p;
     height := height p; onGround := onGround p; wasOnGround := wasOnGround p;
     facing := f; health := health p; maxHealth := maxHealth p;
     invulnerableTime := invulnerableTime p; lastDamageTime := lastDamageTime p |}.

Definition set_wasOnGround (p : player) (b : bool) : player :=
  {| x := x p; y := y p; vx := vx p; vy := vy p; width := width p;
     height := height p; onGround := onGround p; wasOnGround := b;
     facing := facing p; health := health p; maxHealth := maxHealth p;
     invulnerableTime := invulnerableTime p; lastDamageTime := lastDamageTime p |}.

Definition set_health (p : player) (h : Q) : player :=
  {| x := x p; y := y p; vx := vx p; vy := vy p; width := width p;
     height := height p; onGround := onGround p; wasOnGround := wasOnGround p;
     facing := facing p; health := h; maxHealth := maxHealth p;
     invulnerableTime := invulnerableTime p; lastDamageTime := lastDamageTime p |}.

Definition set_invulnerable (p : player) (t : Q) : player :=
  {| x := x p; y := y p; vx := vx p; vy := vy p; width := width p;
     height := height p; onGround := onGround p; wasOnGround := wasOnGround p;
     facing := facing p; health := health p; maxHealth := maxHealth p;
     invulnerableTime := t; lastDamageTime := lastDamageTime p |}.

Definition set_lastDamage (p : player) (t : Q) : player :=
  {| x := x p; y := y p; vx := vx p; vy := vy p; width := width p;
     height := height p; onGround := onGround p; wasOnGround := wasOnGround p;
     facing := facing p; health := health p; maxHealth := maxHealth p;
     invulnerableTime := invulnerableTime p; lastDamageTime := t |}.

(** Physics constants (part_001 lines 14-20). *)
Definition GRAVITY : Q := 6 # 10.
Definition TERMINAL_VELOCITY : Q := 18.
Definition MOVE_ACCEL : Q := 9 # 10.
Definition AIR_ACCEL : Q := 1 # 2.
Definition FRICTION : Q := 85 # 100.
Definition JUMP_VELOCITY : Q := -25 # 2.
Definition MAX_RUN_SPEED : Q := 26 # 5.

Inductive weather_type := Clear | Rain | Storm.

Definition weather_type_eqb (a b : weather_type) : bool :=
  match a, b with
  | Clear, Clear | Rain, Rain | Storm, Storm => true
  | _, _ => false
  end.

(** ** Health (part_001 lines 1028-1074) *)

(** [damagePlayer(amount)] at game time [totalTime]. *)
Definition damagePlayer (totalTime amount : Q) (p : player) : player :=
  if Qltb 0 (invulnerableTime p) then p
  else set_lastDamage
         (set_invulnerable (set_health p (Qmax 0 (health p - amount))) 1)
         totalTime.

(** The fall-damage branch (lines 1035-1041). *)
Definition fall_damage_fires (p : player) : bool :=
  Qltb (TERMINAL_VELOCITY * (8 # 10)) (vy p) && onGround p && negb (wasOnGround p).

Definition fall_damage_amount (p : player) : Z :=
  Z.max 0 (Qfloor ((vy p - TERMINAL_VELOCITY * (7 # 10)) * 5)).


(** The five blocks of [updatePlayerHealth(dt)], in source order. *)

(** Invulnerability countdown (lines 1030-1033). *)
Definition invulnerability_stage (dt : Q) (p : player) : player :=
  if Qltb 0 (invulnerableTime p)
  then set_invulnerable p (invulnerableTime p - dt / 60) else p.

(** Fall damage (lines 1035-1042), including the [wasOnGround] update. *)
Definition fall_stage (totalTime : Q) (p : player) : player :=
  let p := if fall_damage_fires p then
             let fallDamage := fall_damage_amount p in
             if (0 <? fallDamage)%Z then damagePlayer totalTime (inject_Z fallDamage) p
             else p
           else p in
  set_wasOnGround p (onGround p).

(** Lightning (lines 1044-1052): [r_strike] is the [Math.random()] drawn
    only in a storm at night, [r_amount] the one drawn when it strikes.
    [drawLightning] only paints. *)
Definition lightning_stage (tile_at : Z -> Z -> Z) (dt totalTime : Q)
  (wtype : weather_type) (isDaytime : bool) (r_strike r_amount : Q)
  (p : player) : player :=
  if weather_type_eqb wtype Storm && negb isDaytime
     && Qltb r_strike ((1 # 10000) * dt)
     && negb (isSolid (tile_at (Qfloor (x p / TS)) (Qfloor (y p / TS - 2))))
  then damagePlayer totalTime (inject_Z (10 + Qfloor (r_amount * 10))%Z) p
  else p.

(** Regeneration (lines 1054-1058). *)
Definition regen_stage (dt totalTime : Q) (p : player) : player :=
  if Qltb (health p) (maxHealth p) && Qltb 5 (totalTime - lastDamageTime p)
  then set_health p (Qmin (maxHealth p) (health p + (1 # 100) * dt / 60))
  else p.

(** Death check and respawn (lines 1060-1065). *)
Definition death_stage (tile_at : Z -> Z -> Z) (p : player) : player :=
  if Qle_bool (health p) 0 then
    let p := set_health p (maxHealth p) in
    let '(nx, ny) := spawnPlayerOnSurface tile_at (x p, y p) in
    set_pos p nx ny
  else p.

Definition updatePlayerHealth (tile_at : Z -> Z -> Z) (dt totalTime : Q)
  (wtype : weather_type) (isDaytime : bool) (r_strike r_amount : Q)
  (p : player) : player :=
  death_stage tile_at
    (regen_stage dt totalTime
       (lightning_stage tile_at dt totalTime wtype isDaytime r_strike r_amount
          (fall_stage totalTime (invulnerability_stage dt p)))).

(** ** The movement and collision part of [update] (lines 368-397) *)
Definition physics_step (tile_at : Z -> Z -> Z) (left right jump : bool)
  (p : player) : player :=
  let accel := if onGround p then MOVE_ACCEL else AIR_ACCEL in
  let vx1 := if left && negb right then vx p - accel else vx p in
  let vx2 := if right && negb left then vx1 + accel else vx1 in
  let p := if left && negb right then set_facing p (-1) else p in
  let p := if right && negb left then set_facing p 1 else p in
  let vx3 := if negb (xorb left right) then vx2 * FRICTION else vx2 in
  let vx4 := Qmax (- MAX_RUN_SPEED) (Qmin MAX_RUN_SPEED vx3) in
  let '(vy1, g1) := if jump && onGround p then (JUMP_VELOCITY, false)
                    else (vy p, onGround p) in
  let vy2 := Qmin TERMINAL_VELOCITY (vy1 + GRAVITY) in
  let resultX := aabbVsTiles tile_at (x p) (y p) (width p) (height p) vx4 0 in
  let vx5 := if res_hitX resultX then 0 else vx4 in
  let resultY := aabbVsTiles tile_at (res_x resultX) (y p) (width p) (height p) 0 vy2 in
  let vy3 := if res_hitY resultY then 0 else vy2 in
  set_vel (set_pos p (res_x resultX) (res_y resultY)) vx5 vy3 (res_grounded resultY).

(** The player's part of one frame: [updatePlayerHealth] then the physics
    (mining and placing do not touch the player). *)
Definition frame_player (tile_at : Z -> Z -> Z) (dt totalTime : Q)
  (wtype : weather_type) (isDaytime : bool) (r_strike r_amount : Q)
  (left right jump : bool) (p : player) : player :=
  physics_step tile_at left right jump
    (updatePlayerHealth tile_at dt totalTime wtype isDaytime r_strike r_amount p).

(** One frame's inputs as the player sees them. *)
Record frame_input := {
  fi_dt : Q; fi_totalTime : Q; fi_weather : weather_type; fi_isDaytime : bool;
  fi_r_strike : Q; fi_r_amount : Q; fi_left : bool; fi_right : bool; fi_jump : bool
}.

Fixpoint run_frames (tile_at : Z -> Z -> Z) (ins : list frame_input) (p : player)
  : player :=
  match ins with
  | [] => p
  | i :: ins' =>
      run_frames tile_at ins'
        (frame_player tile_at (fi_dt i) (fi_totalTime i) (fi_weather i)
           (fi_isDaytime i) (fi_r_strike i) (fi_r_amount i)
           (fi_left i) (fi_right i) (fi_jump i) p)
  end.

(** ** Weather (part_001 lines 1077-1171)

    [Math.random()] is the stream [rs]: the [k]-th draw of the frame is
    [rs k]; each function returns how many draws it made. *)

Record particle := { part_x : Q; part_y : Q; speed : Q; plength : Q }.

Record weather := {
  wtype : weather_type; intensity : Q; timeLeft : Q; particles : list particle
}.

Record camera := { cam_x : Q; cam_y : Q; cam_width : Q; cam_height : Q }.

Definition initial_weather : weather :=
  {| wtype := Clear; intensity := 0; timeLeft := 0; particles := [] |}.

(** [startNewWeather()]: draws the kind, then the intensity, then the
    duration. *)
Definition startNewWeather (r_kind r_int r_time : Q) (wea : weather) : weather :=
  if Qltb r_kind (7 # 10) then
    {| wtype := Rain; intensity := (3 # 10) + r_int * (7 # 10);
       timeLeft := 30 + r_time * 120; particles := [] |}
  else
    {| wtype := Storm; intensity := (6 # 10) + r_int * (4 # 10);
       timeLeft := 20 + r_time * 60; particles := [] |}.

(** The spawning loop: three draws per particle (x, speed, length), each
    particle pushed at the end. *)
Fixpoint spawn_particles (n : nat) (cam : camera) (rain : bool)
  (rs : nat -> Q) (k : nat) : list particle * nat :=
  match n with
  | O => ([], k)
  | S n' =>
      let pt := {| part_x := cam_x cam + rs k * cam_width cam;
                   part_y := cam_y cam;
                   speed := if rain then 10 + rs (S k) * 15 else 15 + rs (S k) * 20;
                   plength := if rain then 10 + rs (S (S k)) * 15
                              else 5 + rs (S (S k)) * 10 |} in
      let '(rest, k') := spawn_particles n' cam rain rs (S (S (S k))) in
      (pt :: rest, k')
  end.

(** One iteration of the backward update loop. [splice(i, 1)] while
    walking from the end keeps the survivors in order, so the loop is a
    right fold. Rain hitting Sand draws once for the 0.1% conversion. *)
Definition update_particle (dt : Q) (cam : camera) (rain : bool) (rs : nat -> Q)
  (pt : particle) (st : list particle * grid * nat) : list particle * grid * nat :=
  let '(kept, w, k) := st in
  let pt := {| part_x := part_x pt; part_y := part_y pt + speed pt * dt / 5;
               speed := speed pt; plength := plength pt |} in
  if Qltb (cam_y cam + cam_height cam) (part_y pt) then (kept, w, k)
  else
    let tx := Qfloor (part_x pt / TS) in
    let ty := Qfloor (part_y pt / TS) in
    if isSolid (getTile w tx ty) then
      if rain && (getTile w tx ty =? SAND)%Z then
        (kept, (if Qltb (rs k) (1 # 1000) then setTile w tx ty DIRT else w), S k)
      else (kept, w, k)
    else (pt :: kept, w, k).

Definition updateWeatherParticles (dt : Q) (cam : camera) (rs : nat -> Q)
  (k : nat) (w : grid) (wea : weather) : weather * grid :=
  match wtype wea with
  | Clear => (wea, w)
  | _ =>
      let rain := weather_type_eqb (wtype wea) Rain in
      let particleCount :=
        if rain then Qfloor (intensity wea * 3 * dt) else Qfloor (intensity wea * 5 * dt) in
      let '(fresh, k) := spawn_particles (Z.to_nat particleCount) cam rain rs k in
      let '(kept, w, _) :=
        fold_right (update_particle dt cam rain rs) ([], w, k) (particles wea ++ fresh) in
      ({| wtype := wtype wea; intensity := intensity wea; timeLeft := timeLeft wea;
          particles := kept |}, w)
  end.

(** [updateWeather(dt)]: the countdown, or the trigger draw while none is
    running, then the particles. *)
Definition updateWeather (dt : Q) (cam : camera) (rs : nat -> Q) (w : grid)
  (wea : weather) : weather * grid :=
  let '(wea, k) :=
    if Qltb 0 (timeLeft wea) then
      let tl := timeLeft wea - dt / 60 in
      if Qle_bool tl 0 then
        ({| wtype := Clear; intensity := 0; timeLeft := tl; particles := [] |}, O)
      else
        ({| wtype := wtype wea; intensity := intensity wea; timeLeft := tl;
            particles := particles wea |}, O)
    else if Qltb (rs O) ((1 # 1000) * dt) then
      (startNewWeather (rs 1%nat) (rs 2%nat) (rs 3%nat) wea, 4%nat)
    else (wea, 1%nat) in
  updateWeatherParticles dt cam rs k w wea.

(** ** Mining and placing (part_001 lines 420-461)

    [gameState.inventory] is a JS object keyed by tile id, as a [gmap];
    a missing key reads as [undefined], which is not [> 0]. [HOTBAR] is
    indexed by [selectedHotbar]; an index past its end reads [undefined],
    which the placing branch refuses. [mtx], [mty] are [mouse.tx],
    [mouse.ty]. [Math.hypot(a, b) <= REACH] is compared on squares. *)

Definition REACH : Z := 6.

Definition HOTBAR : list Z :=
  [DIRT; STONE; WOOD; SAND; BRICK; GLASS; TORCH; GRASS; AIR]%Z.

Abbreviation inventory := (gmap Z Z).

Definition count (inv : inventory) (t : Z) : Z := default 0%Z (inv !! t).

Definition has_positive (inv : inventory) (t : Z) : bool :=
  match inv !! t with
  | Some c => (0 <? c)%Z
  | None => false
  end.

Definition interact (w : grid) (inv : inventory) (p : player) (mtx mty : Z)
  (left right : bool) (selectedHotbar : nat) : grid * inventory :=
  let pxTile := x p / TS in
  let pyTile := y p / TS in
  let ddx := inject_Z mtx - pxTile in
  let ddy := inject_Z mty - pyTile in
  let inReach := Qle_bool (ddx * ddx + ddy * ddy) (inject_Z (REACH * REACH)) in
  if inReach then
    if left then
      let t := getTile w mtx mty in
      if negb (t =? AIR)%Z
      then (setTile w mtx mty AIR, <[t := (count inv t + 1)%Z]> inv)
      else (w, inv)
    else if right then
      match HOTBAR !! selectedHotbar with
      | None => (w, inv)
      | Some placeId =>
          if negb (placeId =? AIR)%Z && (getTile w mtx mty =? AIR)%Z then
            if has_positive inv placeId || (placeId =? DIRT)%Z then
              let tileWorldX := inject_Z (mtx * TILE_SIZE) + TS / 2 in
              let tileWorldY := inject_Z (mty * TILE_SIZE) + TS / 2 in
              let intersectsX := Qltb (Qabs (tileWorldX - x p)) ((TS + width p) / 2) in
              let intersectsY := Qltb (Qabs (tileWorldY - y p)) ((TS + height p) / 2) in
              if negb (intersectsX && intersectsY) then
                (setTile w mtx mty placeId,
                 if negb (placeId =? DIRT)%Z
                 then <[placeId := (count inv placeId - 1)%Z]> inv
                 else inv)
              else (w, inv)
            else (w, inv)
          else (w, inv)
      end
    else (w, inv)
  else (w, inv).

(** The tile's square [mtx*TS, mtx*TS + TS) x
    [mty*TS, mty*TS + TS) meets the interior of the player's box centred on
    [(x p, y p)]. *)
Definition footprint_overlaps (mtx mty : Z) (p : player) : Prop :=
  inject_Z mtx * TS < x p + width p / 2 /\ x p - width p / 2 < inject_Z mtx * TS + TS /\
  inject_Z mty * TS < y p + height p / 2 /\ y p - height p / 2 < inject_Z mty * TS + TS.

(** ** Keyboard (part_001 lines 244-268)

    [e.key] is an ASCII string: [toLowerCase] maps A-Z to a-z, and JS
    compares strings by code units, lexicographically. *)

Close Scope Q_scope.

Record input_state := {
  keys : gset string; selectedHotbar : Z; showCraftingMenu : bool
}.

Definition HOTBAR_SIZE : Z := 9.

Definition ascii_lower (c : Ascii.ascii) : Ascii.ascii :=
  let n := Ascii.nat_of_ascii c in
  if (65 <=? n)%nat && (n <=? 90)%nat then Ascii.ascii_of_nat (n + 32) else c.

Fixpoint toLowerCase (s : string) : string :=
  match s with
  | String.EmptyString => String.EmptyString
  | String.String c s' => String.String (ascii_lower c) (toLowerCase s')
  end.

(** [a < b] on strings. *)
Fixpoint js_str_lt (a b : string) : bool :=
  match a, b with
  | String.EmptyString, String.EmptyString => false
  | String.EmptyString, String.String _ _ => true
  | String.String _ _, String.EmptyString => false
  | String.String c a', String.String d b' =>
      let n := Ascii.nat_of_ascii c in
      let m := Ascii.nat_of_ascii d in
      if (n <? m)%nat then true else if (m <? n)%nat then false else js_str_lt a' b'
  end.

(** [a >= b] is [!(a < b)], [a <= b] is [!(b < a)]. *)
Definition js_str_ge (a b : string) : bool := negb (js_str_lt a b).
Definition js_str_le (a b : string) : bool := negb (js_str_lt b a).

(** [parseInt(s, R)]: leading white space, a sign, for [R = 16] an
    optional [0x]/[0X], then the longest run of digits below [R]; [None]
    is [NaN]. *)
Definition is_js_space (c : Ascii.ascii) : bool :=
  match Ascii.nat_of_ascii c with
  | 9 | 10 | 11 | 12 | 13 | 32 | 160 => true
  | _ => false
  end%nat.

Fixpoint skip_ws (s : string) : string :=
  match s with
  | String.String c s' => if is_js_space c then skip_ws s' else s
  | String.EmptyString => s
  end.

Definition digit_value (c : Ascii.ascii) : option Z :=
  let n := Z.of_nat (Ascii.nat_of_ascii c) in
  if (48 <=? n) && (n <=? 57) then Some (n - 48)
  else if (97 <=? n) && (n <=? 122) then Some (n - 87)
  else if (65 <=? n) && (n <=? 90) then Some (n - 55)
  else None.

Fixpoint digit_run (R : Z) (s : string) (acc : Z) (any : bool) : option Z :=
  let stop := if any then Some acc else None in
  match s with
  | String.EmptyString => stop
  | String.String c s' =>
      match digit_value c with
      | Some d => if d <? R then digit_run R s' (acc * R + d) true else stop
      | None => stop
      end
  end.

Definition strip_0x (s : string) : string :=
  match s with
  | String.String z (String.String c s') =>
      if (Ascii.nat_of_ascii z =? 48)%nat &&
         ((Ascii.nat_of_ascii c =? 120)%nat || (Ascii.nat_of_ascii c =? 88)%nat)
      then s' else s
  | _ => s
  end.

Definition parseInt (s : string) (R : Z) : option Z :=
  let s := skip_ws s in
  let '(sign, s) :=
    match s with
    | String.String c s' =>
        if (Ascii.nat_of_ascii c =? 45)%nat then (-1, s')
        else if (Ascii.nat_of_ascii c =? 43)%nat then (1, s')
        else (1, s)
    | String.EmptyString => (1, s)
    end in
  let s := if R =? 16 then strip_0x s else s in
  option_map (fun v => sign * v) (digit_run R s 0 false).

(** The [keydown] listener. Its guard makes the first character a digit
    1-9, so [parseInt] never returns [NaN] there; the [None] branch keeps
    the slot. JS [%] is [Z.rem]. *)
Definition keydown (key : string) (rep : bool) (s : input_state) : input_state :=
  if rep then s else
  let k := toLowerCase key in
  let sel := selectedHotbar s in
  let sel :=
    if js_str_ge key "1" && js_str_le key "9" then
      match parseInt key 10 with Some n => n - 1 | None => sel end
    else sel in
  let sel := if String.eqb k "q" then Z.rem (sel - 1 + HOTBAR_SIZE) HOTBAR_SIZE else sel in
  let sel := if String.eqb k "e" then Z.rem (sel + 1) HOTBAR_SIZE else sel in
  {| keys := {[ k ]} ∪ keys s; selectedHotbar := sel;
     showCraftingMenu := if String.eqb k "c" then negb (showCraftingMenu s)
                         else showCraftingMenu s |}.

Definition keyup (key : string) (s : input_state) : input_state :=
  {| keys := keys s ∖ {[ toLowerCase key ]}; selectedHotbar := selectedHotbar s;
     showCraftingMenu := showCraftingMenu s |}.

Open Scope Q_scope.

(** ** Crafting (part_001 lines 211-215 and 868-979)

    A recipe's [input] and [output] objects as their [Object.entries]:
    integer keys come out in ascending order, so the torch recipe lists
    Stone (3) before Wood (4). [name] is only drawn. The menu is drawn,
    and clicked, while [showCraftingMenu] is set; [mx], [my] are
    [mouse.x], [mouse.y] in canvas coordinates. *)

Record recipe := { r_input : list (Z * Z); r_output : list (Z * Z) }.

Definition RECIPES : list recipe := [
  {| r_input := [(SAND, 2%Z)]; r_output := [(GLASS, 1%Z)] |};
  {| r_input := [(STONE, 3%Z)]; r_output := [(BRICK, 1%Z)] |};
  {| r_input := [(STONE, 1%Z); (WOOD, 1%Z)]; r_output := [(TORCH, 4%Z)] |} ].

(** [(inventory[id] || 0) < count] fails for no input. *)
Definition can_craft (inv : inventory) (r : recipe) : bool :=
  forallb (fun '(id, c) => negb (count inv id <? c)%Z) (r_input r).

(** [inventory[id] -= count]; [canCraft] guarantees the key is there. *)
Definition consume (inv : inventory) (ins : list (Z * Z)) : inventory :=
  fold_left (fun inv '(id, c) => <[id := (count inv id - c)%Z]> inv) ins inv.

(** [inventory[id] = (inventory[id] || 0) + count] *)
Definition add_outputs (inv : inventory) (outs : list (Z * Z)) : inventory :=
  fold_left (fun inv '(id, c) => <[id := (count inv id + c)%Z]> inv) outs inv.

Definition apply_recipe (r : recipe) (inv : inventory) : inventory :=
  add_outputs (consume inv (r_input r)) (r_output r).

(** The recipe loop: the craft button of the recipe drawn at [recipeY];
    a craft resets [mouse.left]. Returns the inventory and [mouse.left]. *)
Fixpoint craft_loop (rs : list recipe) (menuX recipeY mx my : Q) (left : bool)
  (inv : inventory) : inventory * bool :=
  match rs with
  | [] => (inv, left)
  | r :: rs' =>
      let menuWidth := 300 in
      let '(inv, mouse_left) :=
        if can_craft inv r && left
           && Qle_bool (menuX + menuWidth - 70) mx && Qle_bool mx (menuX + menuWidth - 20)
           && Qle_bool (recipeY - 10) my && Qle_bool my (recipeY + 10)
        then (apply_recipe r inv, false)
        else (inv, left) in
      craft_loop rs' menuX (recipeY + 40) mx my mouse_left inv
  end.

Definition drawCraftingMenu (cam : camera) (mx my : Q) (left : bool)
  (inv : inventory) : inventory * bool :=
  let menuX := (cam_width cam - 300) / 2 in
  let menuY := (cam_height cam - 250) / 2 in
  craft_loop RECIPES menuX (menuY + 100) mx my left inv.

(** ** Camera and mouse (part_001 lines 403-418) *)

Definition follow_camera (px py : Q) (cam : camera) : camera :=
  let targetX := px - cam_width cam / 2 in
  let targetY := py - cam_height cam / 2 in
  let cx := cam_x cam + (targetX - cam_x cam) * (15 # 100) in
  let cy := cam_y cam + (targetY - cam_y cam) * (15 # 100) in
  {| cam_x := Qmax 0 (Qmin cx (inject_Z (WORLD_WIDTH * TILE_SIZE) - cam_width cam));
     cam_y := Qmax 0 (Qmin cy (inject_Z (WORLD_HEIGHT * TILE_SIZE) - cam_height cam));
     cam_width := cam_width cam; cam_height := cam_height cam |}.

(** [mouse.tx], [mouse.ty] from the canvas point [(mx, my)]. *)
Definition mouse_tile (cam : camera) (mx my : Q) : Z * Z :=
  (Qfloor ((cam_x cam + mx) / TS), Qfloor ((cam_y cam + my) / TS)).

(** ** Day and night (part_001 lines 24-25 and 354-357)

    JS [%] on numbers truncates the quotient toward zero. *)

Definition DAY_NIGHT_CYCLE_DURATION : Q := 600.
Definition DAY_PORTION : Q := 7 # 10.

Definition Qtrunc (q : Q) : Z := if Qle_bool 0 q then Qfloor q else Qceiling q.

Definition js_rem (a m : Q) : Q := a - m * inject_Z (Qtrunc (a / m)).

Record game_clock := { totalTime : Q; dayTime : Q; isDaytime : bool }.

Definition update_clock (dt : Q) (c : game_clock) : game_clock :=
  let tt := totalTime c + dt / 60 in
  let d := js_rem tt DAY_NIGHT_CYCLE_DURATION / DAY_NIGHT_CYCLE_DURATION in
  {| totalTime := tt; dayTime := d; isDaytime := Qltb d DAY_PORTION |}.

(** ** Player animation (player_anim.js lines 5-24)

    [player.anim] may be missing ([None]). *)

Inductive anim_state := Idle | Run | Jump | Fall.

Record anim := { time : Q; walk : Q; state : anim_state }.

Definition determineState (p : player) : anim_state :=
  if negb (onGround p) then (if Qltb (vy p) (-1 # 2) then Jump else Fall)
  else if Qltb (1 # 4) (Qabs (vx p)) then Run
  else Idle.

Definition anim_update (p : player) (an : option anim) (dt : Q) : anim :=
  let an := match an with
            | Some a => a
            | None => {| time := 0; walk := 0; state := Idle |}
            end in
  let st := determineState p in
  let walkSpeed := Qmin (3 # 2) (Qabs (vx p) / (9 # 2)) * (35 # 100) in
  {| state := st; time := time an + dt;
     walk := walk an + walkSpeed * dt * (if onGround p then 1 else 3 # 10) |}.

(** ** Messages (part_001 lines 1267-1284) *)

Record message := { msg_text : string; timer : Q }.

Definition showMessage (text : string) (duration : Q) (m : message) : message :=
  {| msg_text := text; timer := duration |}.

Definition updateMessage (dt : Q) (m : message) : message :=
  if Qltb 0 (timer m) then {| msg_text := msg_text m; timer := timer m - dt / 60 |}
  else m.

(** [drawMessage] draws unless [timer <= 0]. *)
Definition message_drawn (m : message) : bool := negb (Qle_bool (timer m) 0).

Fixpoint updateMessage_n (n : nat) (dt : Q) (m : message) : message :=
  match n with
  | O => m
  | S n' => updateMessage_n n' dt (updateMessage dt m)
  end.

(** Boolean checks on a generated grid, each reading the grid it is given:
    the centre column of C9 and the rebuild of C1. *)
Definition spawn_column_ok (W : grid) : bool :=
  (getTile W (WORLD_WIDTH / 2) 65 =? GRASS)%Z &&
  forallb (fun y => getTile W (WORLD_WIDTH / 2) y =? AIR)%Z (map Z.of_nat (seq 0 65)) &&
  match spawn_scan (Z.to_nat WORLD_HEIGHT) (getTile W) 0 with
  | Some (sx, sy) =>
      Qeq_bool sx (inject_Z WORLD_WIDTH / 2 * TS) &&
      Qeq_bool sy (inject_Z 65 * TS - 2 * TS)
  | None => false
  end.

Definition regenerates (seed : Z) (W : grid) : bool :=
  bool_decide (generateWorld seed W = W).

(** ** Properties stated on the model

    Predicates and concrete inputs used by the statements below. *)

Definition health_ok (p : player) : Prop := 0 <= health p /\ health p <= maxHealth p.

(** The bound [health <= maxHealth] with [0 <= maxHealth], which holds
    between the regeneration step and the death check. *)
Definition health_capped (p : player) : Prop := health p <= maxHealth p /\ 0 <= maxHealth p.

(** A night storm frame whose lightning strikes (draws 0 and 1/2), then a
    calm frame, from the initial player over a floor at row 10. *)
Definition storm_frames : list frame_input :=
  [ {| fi_dt := 1; fi_totalTime := 100; fi_weather := Storm; fi_isDaytime := false;
       fi_r_strike := 0; fi_r_amount := 1 # 2;
       fi_left := false; fi_right := true; fi_jump := false |};
    {| fi_dt := 1; fi_totalTime := 101; fi_weather := Clear; fi_isDaytime := true;
       fi_r_strike := 0; fi_r_amount := 0;
       fi_left := false; fi_right := false; fi_jump := true |} ].

(** A player at terminal fall speed, 5 units above a floor at row 10. *)
Definition falling_player : player :=
  set_vel (set_pos initial_player (inject_Z WORLD_WIDTH / 2 * inject_Z TILE_SIZE) 218)
    0 TERMINAL_VELOCITY false.

Definition calm (dt tt : Q) : frame_input :=
  {| fi_dt := dt; fi_totalTime := tt; fi_weather := Clear; fi_isDaytime := true;
     fi_r_strike := 1; fi_r_amount := 0;
     fi_left := false; fi_right := false; fi_jump := false |}.

Definition weather_inv (wea : weather) : Prop :=
  wtype wea = Clear \/ (0 < timeLeft wea)%Q.

Definition allowed_transition (a b : weather_type) : bool :=
  match a, b with
  | Clear, _ => true
  | Rain, Rain | Rain, Clear | Storm, Storm | Storm, Clear => true
  | _, _ => false
  end.

Close Scope Q_scope.

(** A flat terrain whose surface is row [r]: solid from row [r] down. *)
Definition ground_from (r : Z) : Z -> Z -> Z :=
  fun _ ty => if r <=? ty then STONE else AIR.

(** * Properties *)

From Stdlib Require Import Lqa.

(** ** Rational helpers *)

Lemma Qltb_true (p q : Q) : Qltb p q = true <-> (p < q)%Q.
Proof.
  unfold Qltb. rewrite negb_true_iff. split.
  - intros H. apply Qnot_le_lt. intros H'. apply Qle_bool_iff in H'. congruence.
  - intros H. destruct (Qle_bool q p) eqn:E; [|reflexivity].
    apply Qle_bool_iff in E. exfalso. apply (Qlt_not_le p q); assumption.
Qed.

Lemma Qltb_false (p q : Q) : Qltb p q = false <-> (q <= p)%Q.
Proof.
  unfold Qltb. rewrite negb_false_iff. apply Qle_bool_iff.
Qed.

Lemma Qfloor_unique (x : Q) (k : Z) :
  (inject_Z k <= x)%Q -> (x < inject_Z k + 1)%Q -> Qfloor x = k.
Proof.
  intros H1 H2. pose proof (Qfloor_le x). pose proof (Qlt_floor x).
  rewrite inject_Z_plus in *. change (inject_Z 1) with 1%Q in *.
  assert (A : (k < Qfloor x + 1)%Z).
  { rewrite Zlt_Qlt, inject_Z_plus. change (inject_Z 1) with 1%Q. lra. }
  assert (B : (Qfloor x < k + 1)%Z).
  { rewrite Zlt_Qlt, inject_Z_plus. change (inject_Z 1) with 1%Q. lra. }
  lia.
Qed.

Lemma Qfloor_lt_Z (x : Q) (k : Z) : (x < inject_Z k)%Q -> (Qfloor x < k)%Z.
Proof.
  intros H. pose proof (Qfloor_le x). rewrite Zlt_Qlt. lra.
Qed.

Lemma Qfloor_ge_Z (x : Q) (k : Z) : (inject_Z k <= x)%Q -> (k <= Qfloor x)%Z.
Proof.
  intros H. rewrite <- (Qfloor_Z k). apply Qfloor_resp_le. exact H.
Qed.

Section ResolverFacts.

Variable tile_at : Z -> Z -> Z.

Lemma sweep_x_contact_y fuel px py pw ph ad dir s moved newX r :
  sweep_x tile_at fuel px py pw ph ad dir s moved newX = inr r -> res_y r = py.
Proof.
  revert moved newX.
  induction fuel as [|fuel IH]; intros moved newX H; simpl in H; [discriminate|].
  destruct (Qltb moved ad); [|discriminate].
  destruct (solid_in_column _ _ _ _).
  - injection H as <-. reflexivity.
  - eapply IH. exact H.
Qed.

Lemma sweep_y_x fuel newX py pw ph ad dir s moved newY :
  res_x (sweep_y tile_at fuel newX py pw ph ad dir s moved newY) = newX.
Proof.
  revert moved newY.
  induction fuel as [|fuel IH]; intros moved newY; simpl; [reflexivity|].
  destruct (Qltb moved ad); [|reflexivity].
  destruct (solid_in_row _ _ _ _); [|apply IH].
  destruct (Qltb 0 dir); reflexivity.
Qed.

(** Only a downward vertical contact reports grounded, and it also reports
    the vertical hit. *)
Lemma sweep_y_grounded_hit fuel newX py pw ph ad dir s moved newY :
  res_grounded (sweep_y tile_at fuel newX py pw ph ad dir s moved newY) = true ->
  res_hitY (sweep_y tile_at fuel newX py pw ph ad dir s moved newY) = true.
Proof.
  revert moved newY.
  induction fuel as [|fuel IH]; intros moved newY; simpl; [discriminate|].
  destruct (Qltb moved ad); [|discriminate].
  destruct (solid_in_row _ _ _ _); [|apply IH].
  destruct (Qltb 0 dir); simpl; congruence.
Qed.

Lemma sweep_x_contact_not_grounded fuel px py pw ph ad dir s moved newX r :
  sweep_x tile_at fuel px py pw ph ad dir s moved newX = inr r ->
  res_grounded r = false.
Proof.
  revert moved newX.
  induction fuel as [|fuel IH]; intros moved newX H; simpl in H; [discriminate|].
  destruct (Qltb moved ad); [|discriminate].
  destruct (solid_in_column _ _ _ _).
  - injection H as <-. reflexivity.
  - eapply IH. exact H.
Qed.

Lemma aabbVsTiles_grounded_hitY px py pw ph dx dy :
  res_grounded (aabbVsTiles tile_at px py pw ph dx dy) = true ->
  res_hitY (aabbVsTiles tile_at px py pw ph dx dy) = true.
Proof.
  unfold aabbVsTiles.
  destruct (negb (Qeq_bool dx 0)).
  - destruct (sweep_x _ _ _ _ _ _ _ _ _ _ _) as [newX|r] eqn:E.
    + destruct (negb (Qeq_bool dy 0)); [apply sweep_y_grounded_hit | discriminate].
    + rewrite (sweep_x_contact_not_grounded _ _ _ _ _ _ _ _ _ _ _ E). discriminate.
  - destruct (negb (Qeq_bool dy 0)); [apply sweep_y_grounded_hit | discriminate].
Qed.

End ResolverFacts.

(** ** C10: each axis sweep leaves the other coordinate alone *)

(** C10: with [dy = 0] the resolved y is the input y, and with [dx = 0]
    the resolved x is the input x, for every grid, position, size and
    displacement. *)
Theorem aabbVsTiles_axis_frame (tile_at : Z -> Z -> Z) (px py pw ph dx dy : Q) :
  ((dy == 0)%Q -> (res_y (aabbVsTiles tile_at px py pw ph dx dy) == py)%Q) /\
  ((dx == 0)%Q -> (res_x (aabbVsTiles tile_at px py pw ph dx dy) == px)%Q).
Proof.
  split; intros H0; unfold aabbVsTiles.
  - assert (E : Qeq_bool dy 0 = true) by (apply Qeq_bool_iff; exact H0).
    destruct (negb (Qeq_bool dx 0)).
    + destruct (sweep_x _ _ _ _ _ _ _ _ _ _ _) as [newX|r] eqn:Hs.
      * rewrite E. cbn. lra.
      * rewrite (sweep_x_contact_y _ _ _ _ _ _ _ _ _ _ _ _ Hs). reflexivity.
    + rewrite E. cbn. lra.
  - assert (E : Qeq_bool dx 0 = true) by (apply Qeq_bool_iff; exact H0).
    rewrite E. cbn -[sweep_y].
    destruct (negb (Qeq_bool dy 0)).
    + rewrite sweep_y_x. lra.
    + cbn. lra.
Qed.

Lemma aabbVsTiles_axis_frame_witness :
  (res_y (aabbVsTiles (fun _ ty => if (10 <=? ty)%Z then STONE else AIR)
            12 218 18 34 30 0) == 218)%Q /\
  (res_x (aabbVsTiles (fun _ ty => if (10 <=? ty)%Z then STONE else AIR)
            12 218 18 34 0 100) == 12)%Q.
Proof.
  split; apply (aabbVsTiles_axis_frame (fun _ ty => if (10 <=? ty)%Z then STONE else AIR)
                  12 218 18 34); vm_compute; reflexivity.
Defined.

(** ** Vertical contact: C4 and C3 *)

Lemma TS_pos : (0 < TS)%Q.
Proof. reflexivity. Qed.

Lemma div_TS_lt (x y : Q) : (x < y * TS)%Q -> (x / TS < y)%Q.
Proof. intros H. apply Qlt_shift_div_r; [exact TS_pos | exact H]. Qed.

Lemma div_TS_le (x y : Q) : (y * TS <= x)%Q -> (y <= x / TS)%Q.
Proof. intros H. apply Qle_shift_div_l; [exact TS_pos | exact H]. Qed.

Lemma div_TS_mono (x y : Q) : (x <= y)%Q -> (x / TS <= y / TS)%Q.
Proof.
  intros H. unfold Qdiv. apply Qmult_le_compat_r; [exact H | discriminate].
Qed.

Lemma Qmin_cases (a b : Q) :
  ((a < b)%Q /\ (Qmin a b == a)%Q) \/ ((b <= a)%Q /\ (Qmin a b == b)%Q).
Proof. apply Q.min_spec. Qed.

(** C4 (as claimed, refuted): an actor resting exactly on row 10
    (bottom edge [223 + 34/2 = 240 = 10 * TILE_SIZE]) of a solid floor,
    resolved with zero horizontal and zero vertical delta, is reported not
    grounded. *)
Lemma aabbVsTiles_rest_zero_not_grounded :
  (223 + 34 / 2 == inject_Z 10 * TS)%Q /\
  solid_in_row (ground_from 10) 10 (Qfloor ((12 - 18 / 2) / TS))
    (Qfloor ((12 + 18 / 2) / TS)) = true /\
  res_grounded (aabbVsTiles (ground_from 10) 12 223 18 34 0 0) = false.
Proof. vm_compute. repeat split; reflexivity. Qed.

(** C4 (amended): with zero horizontal and zero vertical delta the
    resolver runs neither sweep: it returns the input position, grounded
    false and no hit, whatever the grid under the actor. *)
Theorem aabbVsTiles_zero_motion (tile_at : Z -> Z -> Z) (px py pw ph dx dy : Q)
  (Hx : (dx == 0)%Q) (Hy : (dy == 0)%Q) :
  let r := aabbVsTiles tile_at px py pw ph dx dy in
  (res_x r == px)%Q /\ (res_y r == py)%Q /\ res_grounded r = false /\
  res_hitX r = false /\ res_hitY r = false.
Proof.
  unfold aabbVsTiles.
  assert (Ex : Qeq_bool dx 0 = true) by (apply Qeq_bool_iff; exact Hx).
  assert (Ey : Qeq_bool dy 0 = true) by (apply Qeq_bool_iff; exact Hy).
  rewrite Ex, Ey. cbn. repeat split; lra.
Qed.

Lemma aabbVsTiles_zero_motion_witness :
  (0 == 0)%Q /\ (0 == 0)%Q /\
  res_grounded (aabbVsTiles (ground_from 10) 12 223 18 34 0 0) = false.
Proof.
  split; [reflexivity|]. split; [reflexivity|].
  apply (aabbVsTiles_zero_motion (ground_from 10) 12 223 18 34 0 0);
    reflexivity.
Defined.

(** C3 (as claimed, refuted): the actor at y = 218 over a floor at row 10
    has a remaining gap of 5. A delta of exactly 5 lands at
    [10 * TILE_SIZE - 34/2 = 223] but is reported not grounded, and a delta
    of 5.5 (still at least the gap) is not snapped at all: y = 223.5. *)
Lemma aabbVsTiles_snap_within_tolerance :
  (inject_Z 10 * TS - (218 + 34 / 2) == 5)%Q /\
  res_grounded (aabbVsTiles (ground_from 10) 12 218 18 34 0 5) = false /\
  (res_y (aabbVsTiles (ground_from 10) 12 218 18 34 0 (11 # 2)) == 447 # 2)%Q /\
  ~ (res_y (aabbVsTiles (ground_from 10) 12 218 18 34 0 (11 # 2))
       == inject_Z 10 * TS - 34 / 2)%Q.
Proof. vm_compute. repeat split; try reflexivity. discriminate. Qed.

Section DownwardSweep.

Variable tile_at : Z -> Z -> Z.
Variables (nx py pw ph ad s : Q) (r : Z).

(** The actor's bottom edge, and the gap to the top edge of row [r]. *)
Let B : Q := (py + ph / 2)%Q.
Let g : Q := (inject_Z r * TS - B)%Q.
Let L : Z := Qfloor ((nx - pw / 2) / TS).
Let R : Z := Qfloor ((nx + pw / 2) / TS).

Hypothesis s_pos : (0 < s)%Q.
Hypothesis s_le_TS : (s <= TS)%Q.
Hypothesis ad_pos : (0 < ad)%Q.
Hypothesis gap_nonneg : (0 <= g)%Q.
Hypothesis row_solid : solid_in_row tile_at r L R = true.
Hypothesis rows_above_air :
  forall k, (Qfloor ((B - 1) / TS) <= k < r)%Z -> solid_in_row tile_at k L R = false.

Lemma Qltb_0_1 : Qltb 0 1 = true.
Proof. reflexivity. Qed.

Lemma inject_succ (f : nat) :
  (inject_Z (Z.of_nat (S f)) == inject_Z (Z.of_nat f) + 1)%Q.
Proof. rewrite Nat2Z.inj_succ, <- Z.add_1_r, inject_Z_plus. reflexivity. Qed.

(** One iteration of the downward loop at [moved], against the invariant:
    every earlier sample stopped short of the 1-unit contact depth. *)
Lemma sweep_y_down (f : nat) : forall moved newY,
  (0 <= moved)%Q ->
  ((moved < ad)%Q -> (moved < g + 1)%Q) ->
  ((ad <= moved)%Q -> (newY == py + ad)%Q /\ (ad < g + 1)%Q) ->
  ((moved < ad)%Q -> (ad - moved <= inject_Z (Z.of_nat f) * s)%Q) ->
  let res := sweep_y tile_at (S f) nx py pw ph ad 1 s moved newY in
  ((g + 1 <= ad)%Q ->
     (res_y res == inject_Z r * TS - ph / 2)%Q /\ res_grounded res = true) /\
  ((ad < g + 1)%Q -> (res_y res == py + ad)%Q /\ res_grounded res = false).
Proof.
  induction f as [|f IH]; intros moved newY H0 Hprev Hdone Hfuel res;
    subst res; cbn [sweep_y]; rewrite Qltb_0_1;
    destruct (Qltb moved ad) eqn:Hlt.
  all: try (apply Qltb_false in Hlt; destruct (Hdone Hlt) as [Hy Had];
            cbn; split; intros; [lra | split; [lra | reflexivity]]).
  all: apply Qltb_true in Hlt; pose proof (Hprev Hlt) as Hm;
       pose proof (Hfuel Hlt) as Hf;
       set (d := Qmin ad (moved + s));
       assert (Hd : ((ad < moved + s)%Q /\ (d == ad)%Q) \/
                    ((moved + s <= ad)%Q /\ (d == moved + s)%Q))
         by (apply Qmin_cases);
       set (bot := Qfloor ((py + d * 1 + ph / 2 - 1) / TS));
       destruct (Qlt_le_dec d (g + 1)) as [Hshort | Hdeep].
  (* fuel exhausted: impossible under the fuel invariant *)
  1: exfalso; change (inject_Z (Z.of_nat 0)) with 0%Q in Hf; lra.
  (* a sample that reaches the blocking row, before and after the first *)
  1,3:
    assert (Hbot : bot = r);
    [ apply Qfloor_unique;
      [ apply div_TS_le; subst g B; destruct Hd as [[_ Hd]|[_ Hd]]; lra
      | apply div_TS_lt; subst g B; destruct Hd as [[? Hd]|[? Hd]]; lra ]
    | assert (Hr : solid_in_row tile_at r (Qfloor ((nx - pw / 2) / TS))
                     (Qfloor ((nx + pw / 2) / TS)) = true) by exact row_solid;
      rewrite Hbot, Hr; cbn; split; intros;
      [ split; [lra | reflexivity]
      | exfalso; destruct Hd as [[? Hd]|[? Hd]]; lra ] ].
  (* a sample that stops short: no contact, the loop goes on *)
  assert (Hair : solid_in_row tile_at bot (Qfloor ((nx - pw / 2) / TS))
                  (Qfloor ((nx + pw / 2) / TS)) = false).
  { apply rows_above_air. split.
    - apply Qfloor_resp_le, div_TS_mono. subst g B. destruct Hd as [[? Hd]|[? Hd]]; lra.
    - apply Qfloor_lt_Z, div_TS_lt. subst g B. lra. }
  rewrite Hair. apply IH.
  - lra.
  - intros Hl. destruct Hd as [[? Hd]|[? Hd]]; lra.
  - intros Hl. destruct Hd as [[? Hd]|[? Hd]]; split; lra.
  - intros Hl. pose proof (inject_succ f) as Hs.
    assert (E : (inject_Z (Z.of_nat (S f)) * s ==
                 inject_Z (Z.of_nat f) * s + s)%Q)
      by (rewrite Hs; ring).
    lra.
Qed.

End DownwardSweep.

Lemma sweep_fuel_enough (ad s : Q) :
  (0 < ad)%Q -> (0 < s)%Q ->
  (ad - 0 <= inject_Z (Z.of_nat (Z.to_nat (Qceiling (ad / s)))) * s)%Q.
Proof.
  intros Ha Hs.
  assert (Hd : (0 <= ad / s)%Q).
  { apply Qle_shift_div_l; [exact Hs | lra]. }
  pose proof (Qle_ceiling (ad / s)) as Hc.
  assert (Hc0 : (0 <= Qceiling (ad / s))%Z).
  { rewrite Zle_Qle. change (inject_Z 0) with 0%Q. lra. }
  rewrite Z2Nat.id by exact Hc0.
  assert (E : (ad == ad / s * s)%Q) by (field; lra).
  assert (M : (ad / s * s <= inject_Z (Qceiling (ad / s)) * s)%Q).
  { apply Qmult_le_compat_r; lra. }
  lra.
Qed.

(** C3 (amended): the vertical sweep ([dx = 0], as [update] calls it) of an
    actor moving down ([dy > 0]) towards row [r], whose column span holds a
    solid tile in row [r] and only Air in the rows from its current bottom
    row down to [r - 1], with remaining gap [g = r * TILE_SIZE - (py + ph/2)]:
    every delta [dy >= g + 1] resolves to the same
    [y = r * TILE_SIZE - ph/2] with grounded true; a delta [g <= dy < g + 1]
    is within the 1-unit contact tolerance of the bottom probe and resolves
    to [py + dy] with grounded false. *)
Theorem aabbVsTiles_downward_snap (tile_at : Z -> Z -> Z) (px py pw ph dy : Q)
  (r : Z)
  (Hdy : (0 < dy)%Q)
  (Hgap : (0 <= inject_Z r * TS - (py + ph / 2))%Q)
  (Hrow : solid_in_row tile_at r (Qfloor ((px - pw / 2) / TS))
            (Qfloor ((px + pw / 2) / TS)) = true)
  (Hair : forall k, (Qfloor ((py + ph / 2 - 1) / TS) <= k < r)%Z ->
            solid_in_row tile_at k (Qfloor ((px - pw / 2) / TS))
              (Qfloor ((px + pw / 2) / TS)) = false) :
  let res := aabbVsTiles tile_at px py pw ph 0 dy in
  ((inject_Z r * TS - (py + ph / 2) + 1 <= dy)%Q ->
     (res_y res == inject_Z r * TS - ph / 2)%Q /\ res_grounded res = true) /\
  ((dy < inject_Z r * TS - (py + ph / 2) + 1)%Q ->
     (res_y res == py + dy)%Q /\ res_grounded res = false).
Proof.
  intros res. subst res. unfold aabbVsTiles.
  assert (Ey : Qeq_bool dy 0 = false).
  { destruct (Qeq_bool dy 0) eqn:E; [|reflexivity].
    apply Qeq_bool_iff in E. lra. }
  assert (Habs : (Qabs dy == dy)%Q) by (apply Qabs_pos; lra).
  assert (Hsign : Qsign dy = 1%Q).
  { unfold Qsign. replace (Qltb 0 dy) with true; [reflexivity|].
    symmetry. apply Qltb_true. exact Hdy. }
  assert (Hfl : forall c, Qfloor ((px + 0 + c) / TS) = Qfloor ((px + c) / TS)).
  { intros c. apply Qfloor_comp. apply Qdiv_comp; [ring | reflexivity]. }
  replace (Qeq_bool 0 0) with true by reflexivity.
  rewrite Ey, Hsign. cbn [negb].
  set (s := Qmin (Qabs dy) TS).
  assert (Hs : ((Qabs dy < TS)%Q /\ (s == Qabs dy)%Q) \/
               ((TS <= Qabs dy)%Q /\ (s == TS)%Q)) by apply Qmin_cases.
  assert (HTS : (TS == 24)%Q) by reflexivity.
  unfold sweep_fuel.
  edestruct (sweep_y_down tile_at (px + 0) py pw ph (Qabs dy) s r)
    with (moved := 0%Q) (newY := (py + dy)%Q)
    (f := Z.to_nat (Qceiling (Qabs dy / s))) as [H1 H2].
  all: try solve
    [ destruct Hs as [[? ?]|[? ?]]; lra
    | exact Hgap
    | unfold Qminus; rewrite !Hfl; exact Hrow
    | intros k Hk; unfold Qminus; rewrite !Hfl; apply Hair; exact Hk
    | intros; apply sweep_fuel_enough; [lra | destruct Hs as [[? ?]|[? ?]]; lra]
    | intros; lra ].
  - split; intros Hc.
    + destruct (H1 ltac:(lra)) as [Hy Hg]. split; [exact Hy | exact Hg].
    + destruct (H2 ltac:(lra)) as [Hy Hg]. split; [lra | exact Hg].
Qed.

Lemma aabbVsTiles_downward_snap_witness :
  (res_y (aabbVsTiles (ground_from 10) 12 218 18 34 0 100)
     == inject_Z 10 * TS - 34 / 2)%Q /\
  res_grounded (aabbVsTiles (ground_from 10) 12 218 18 34 0 100) = true.
Proof.
  refine (proj1 (aabbVsTiles_downward_snap (ground_from 10) 12 218 18 34 100 10
                   _ _ _ _) _).
  - reflexivity.
  - discriminate.
  - reflexivity.
  - intros k Hk.
    replace (Qfloor ((218 + 34 / 2 - 1) / TS)) with 9%Z in Hk by reflexivity.
    unfold solid_in_row, span.
    replace (Qfloor ((12 - 18 / 2) / TS)) with 0%Z by reflexivity.
    replace (Qfloor ((12 + 18 / 2) / TS)) with 0%Z by reflexivity.
    cbn. unfold ground_from. replace (10 <=? k)%Z with false by lia. reflexivity.
  - discriminate.
Defined.

(** ** Health and fall damage: C6 and C7 *)

Open Scope Q_scope.

Lemma Qmax_cases (a b : Q) : (a < b /\ Qmax a b == b) \/ (b <= a /\ Qmax a b == a).
Proof. apply Q.max_spec. Qed.

Lemma damagePlayer_ok (tt amount : Q) (p : player) :
  0 <= amount -> health_ok p -> health_ok (damagePlayer tt amount p).
Proof.
  unfold damagePlayer, health_ok. intros Ha [H0 H1].
  destruct (Qltb 0 (invulnerableTime p)); [split; assumption|]. cbn.
  destruct (Qmax_cases 0 (health p - amount)) as [[? E]|[? E]]; rewrite E; lra.
Qed.

Lemma damagePlayer_max (tt amount : Q) (p : player) :
  maxHealth (damagePlayer tt amount p) = maxHealth p.
Proof. unfold damagePlayer. destruct (Qltb 0 (invulnerableTime p)); reflexivity. Qed.

Lemma physics_step_health tile_at l r j p :
  health (physics_step tile_at l r j p) = health p /\
  maxHealth (physics_step tile_at l r j p) = maxHealth p.
Proof.
  unfold physics_step.
  destruct l, r; cbn -[aabbVsTiles]; destruct j, (onGround p); cbn -[aabbVsTiles];
    split; reflexivity.
Qed.

Lemma invulnerability_stage_ok dt p : health_ok p -> health_ok (invulnerability_stage dt p).
Proof. unfold invulnerability_stage. destruct (Qltb _ _); auto. Qed.

Lemma fall_stage_ok tt p : health_ok p -> health_ok (fall_stage tt p).
Proof.
  unfold fall_stage, health_ok. intros Hok.
  destruct (fall_damage_fires p); cbn; [|exact Hok].
  destruct (0 <? fall_damage_amount p)%Z eqn:E; [|exact Hok].
  apply damagePlayer_ok; [|exact Hok].
  apply Z.ltb_lt in E. change 0 with (inject_Z 0). rewrite <- Zle_Qle. lia.
Qed.

Lemma lightning_stage_ok tile_at dt tt wt day rs ra p :
  0 <= ra -> health_ok p -> health_ok (lightning_stage tile_at dt tt wt day rs ra p).
Proof.
  unfold lightning_stage. intros Hr Hok. destruct (_ && _); [|exact Hok].
  apply damagePlayer_ok; [|exact Hok].
  assert (F : (0 <= Qfloor (ra * 10))%Z) by (apply Qfloor_ge_Z; change (inject_Z 0) with 0; lra).
  change 0 with (inject_Z 0). rewrite <- Zle_Qle. lia.
Qed.

Lemma regen_stage_capped dt tt p : health_ok p -> health_capped (regen_stage dt tt p).
Proof.
  unfold regen_stage, health_ok, health_capped. intros [H0 H1].
  destruct (_ && _); cbn; [|split; lra].
  pose proof (Q.le_min_l (maxHealth p) (health p + (1 # 100) * dt / 60)). split; lra.
Qed.

Lemma death_stage_ok tile_at p : health_capped p -> health_ok (death_stage tile_at p).
Proof.
  unfold death_stage, health_capped, health_ok. intros [H1 H0].
  destruct (Qle_bool (health p) 0) eqn:E.
  - destruct (spawnPlayerOnSurface _ _). cbn. lra.
  - assert (N : ~ health p <= 0) by (intros H; apply Qle_bool_iff in H; congruence).
    apply Qnot_le_lt in N. split; lra.
Qed.

Lemma updatePlayerHealth_ok tile_at dt tt wt day rs ra p :
  0 <= ra -> health_ok p ->
  health_ok (updatePlayerHealth tile_at dt tt wt day rs ra p).
Proof.
  intros Hr Hok. unfold updatePlayerHealth.
  apply death_stage_ok, regen_stage_capped, lightning_stage_ok; [exact Hr|].
  apply fall_stage_ok, invulnerability_stage_ok, Hok.
Qed.

Lemma frame_player_ok tile_at dt tt wt day rs ra l r j p :
  0 <= ra -> health_ok p ->
  health_ok (frame_player tile_at dt tt wt day rs ra l r j p).
Proof.
  intros Hr Hok. unfold frame_player.
  pose proof (updatePlayerHealth_ok tile_at dt tt wt day rs ra p Hr Hok) as H.
  unfold health_ok in *.
  destruct (physics_step_health tile_at l r j
              (updatePlayerHealth tile_at dt tt wt day rs ra p)) as [-> ->].
  exact H.
Qed.

(** C6: over any sequence of frames, each running the damage,
    regeneration and death/respawn blocks of [updatePlayerHealth] and then
    the physics, a player with [0 <= health <= maxHealth] keeps it, for
    every frame time, weather, grid and input, provided the lightning
    damage draw is a [Math.random()] value in [0, 1). *)
Theorem health_within_bounds (tile_at : Z -> Z -> Z) (ins : list frame_input)
  (p : player) :
  Forall (fun i => 0 <= fi_r_amount i < 1) ins ->
  0 <= health p <= maxHealth p ->
  0 <= health (run_frames tile_at ins p) <= maxHealth (run_frames tile_at ins p).
Proof.
  revert p. induction ins as [|i ins IH]; intros p Hins Hok; [exact Hok|].
  inversion Hins as [|? ? [Hr _] Hrest]; subst.
  cbn [run_frames]. apply IH; [exact Hrest|].
  apply frame_player_ok; [exact Hr | exact Hok].
Qed.


Lemma health_within_bounds_witness :
  health (run_frames (ground_from 10) storm_frames initial_player) == 85 /\
  0 <= health (run_frames (ground_from 10) storm_frames initial_player)
    <= maxHealth (run_frames (ground_from 10) storm_frames initial_player).
Proof.
  split; [vm_compute; reflexivity|].
  apply health_within_bounds.
  - repeat constructor; discriminate.
  - split; discriminate.
Defined.

(** A vertical contact resets [vy], so a grounded player never carries a
    fall speed out of the physics. *)
Lemma physics_step_grounded_at_rest tile_at l r j p :
  onGround (physics_step tile_at l r j p) = true ->
  vy (physics_step tile_at l r j p) = 0.
Proof.
  unfold physics_step.
  set (p1 := if r && negb l then _ else _).
  destruct (j && onGround p1);
  match goal with
  | |- context [aabbVsTiles ?t ?a ?b ?c ?d 0 ?e] =>
      pose proof (aabbVsTiles_grounded_hitY t a b c d 0 e) as G;
      destruct (res_grounded (aabbVsTiles t a b c d 0 e));
      [rewrite (G eq_refl); intros _; reflexivity | discriminate]
  end.
Qed.

(** C7 (code defect): the fall-damage branch of [updatePlayerHealth] never
    fires on a player left by a frame of [update]: the physics that runs
    after it zeroes [vy] on every vertical contact, so the landing frame
    hands over [onGround = true] with [vy = 0]. The initial player is not
    grounded either. Concretely, the player landing at terminal velocity 18
    (a fall speed 5.4 above 70% of it) is grounded after the landing frame
    and still has full health after the next one. *)
Theorem fall_damage_never_applied :
  (forall tile_at dt tt wt day rs ra l r j p,
     fall_damage_fires (frame_player tile_at dt tt wt day rs ra l r j p) = false) /\
  fall_damage_fires initial_player = false /\
  (let p1 := run_frames (ground_from 10) [calm 1 10] falling_player in
   let p2 := run_frames (ground_from 10) [calm 1 11] p1 in
   onGround p1 = true /\ wasOnGround p1 = false /\ vy p1 == 0 /\
   health p2 == 100 /\ health p2 == maxHealth p2).
Proof.
  split; [|split; [reflexivity|]].
  - intros. unfold fall_damage_fires, frame_player.
    destruct (onGround (physics_step tile_at l r j _)) eqn:G.
    + rewrite (physics_step_grounded_at_rest _ _ _ _ _ G). reflexivity.
    + rewrite andb_false_r, andb_false_l. reflexivity.
  - vm_compute. repeat split; reflexivity.
Qed.

(** ** Weather state machine *)

Lemma updateWeatherParticles_fields dt cam rs k w wea :
  let wea' := fst (updateWeatherParticles dt cam rs k w wea) in
  wtype wea' = wtype wea /\ timeLeft wea' = timeLeft wea /\
  intensity wea' = intensity wea /\ (wtype wea = Clear -> wea' = wea).
Proof.
  unfold updateWeatherParticles.
  destruct (wtype wea) eqn:E.
  - cbn. rewrite E. auto.
  - destruct (spawn_particles _ _ _ _ _) as [fresh k'].
    destruct (fold_right _ _ _) as [[kept w'] k''].
    cbn. repeat split; congruence.
  - destruct (spawn_particles _ _ _ _ _) as [fresh k'].
    destruct (fold_right _ _ _) as [[kept w'] k''].
    cbn. repeat split; congruence.
Qed.

Open Scope Q_scope.

Lemma startNewWeather_active r1 r2 r3 wea :
  0 <= r3 ->
  wtype (startNewWeather r1 r2 r3 wea) <> Clear /\
  0 < timeLeft (startNewWeather r1 r2 r3 wea).
Proof.
  intros H. unfold startNewWeather.
  destruct (Qltb r1 (7 # 10)); cbn; split; try discriminate; lra.
Qed.

(** C8: from any state satisfying the invariant (every reachable state
    does, starting with [initial_weather]) one [updateWeather] step keeps
    the invariant, moves only between Clear and Rain or Storm, strictly
    decreases [timeLeft] while a weather stays active, and resets to Clear
    with zero intensity and no particles when [timeLeft] falls to 0 or
    below. *)
Theorem weather_transitions (dt : Q) (cam : camera) (rs : nat -> Q) (w : grid)
  (wea : weather) (Hdt : 0 < dt) (Hrs : forall n, 0 <= rs n)
  (Hinv : weather_inv wea) :
  let wea' := fst (updateWeather dt cam rs w wea) in
  weather_inv initial_weather /\
  weather_inv wea' /\
  allowed_transition (wtype wea) (wtype wea') = true /\
  (wtype wea <> Clear -> wtype wea' <> Clear -> timeLeft wea' < timeLeft wea) /\
  (wtype wea <> Clear -> timeLeft wea' <= 0 ->
     wtype wea' = Clear /\ intensity wea' == 0 /\ particles wea' = []).
Proof.
  cbv zeta. split; [left; reflexivity |].
  unfold updateWeather.
  destruct (Qltb 0 (timeLeft wea)) eqn:T.
  - apply Qltb_true in T.
    destruct (Qle_bool (timeLeft wea - dt / 60) 0) eqn:L; cbv beta iota.
    + apply Qle_bool_iff in L.
      destruct (updateWeatherParticles_fields dt cam rs 0%nat w
        {| wtype := Clear; intensity := 0; timeLeft := timeLeft wea - dt / 60;
           particles := [] |}) as (_ & _ & _ & HC).
      rewrite HC by reflexivity. cbn.
      split; [left; reflexivity |].
      split; [destruct (wtype wea); reflexivity |].
      split; [intros _ N; congruence |].
      intros _ _. repeat split; reflexivity.
    + assert (L' : 0 < timeLeft wea - dt / 60).
      { apply Qnot_le_lt. intros H. apply Qle_bool_iff in H. congruence. }
      destruct (updateWeatherParticles_fields dt cam rs 0%nat w
        {| wtype := wtype wea; intensity := intensity wea;
           timeLeft := timeLeft wea - dt / 60; particles := particles wea |})
        as (Ety & Etl & _ & _).
      cbn [wtype timeLeft] in Ety, Etl. unfold weather_inv. rewrite Ety, Etl.
      split; [right; exact L' |].
      split; [destruct (wtype wea); reflexivity |].
      split.
      * intros _ _.
        assert (0 < dt / 60) by (apply Qlt_shift_div_l; lra). lra.
      * intros _ H. lra.
  - apply Qltb_false in T.
    assert (EC : wtype wea = Clear).
    { destruct Hinv as [H | H]; [exact H | lra]. }
    destruct (Qltb (rs 0%nat) ((1 # 1000) * dt)); cbv beta iota.
    + destruct (startNewWeather_active (rs 1%nat) (rs 2%nat) (rs 3%nat) wea
        (Hrs 3%nat)) as [Act Pos].
      destruct (updateWeatherParticles_fields dt cam rs 4%nat w
        (startNewWeather (rs 1%nat) (rs 2%nat) (rs 3%nat) wea))
        as (Ety & Etl & _ & _).
      cbn [wtype timeLeft] in Ety, Etl. unfold weather_inv. rewrite Ety, Etl, EC.
      split; [right; exact Pos |].
      split; [reflexivity |].
      split; intros N; congruence.
    + destruct (updateWeatherParticles_fields dt cam rs 1%nat w wea)
        as (_ & _ & _ & HC).
      rewrite (HC EC). unfold weather_inv. rewrite EC.
      split; [left; reflexivity |].
      split; [reflexivity |].
      split; intros N; congruence.
Qed.

Lemma weather_transitions_witness :
  let wea := {| wtype := Rain; intensity := 1 # 2; timeLeft := 1 # 120;
                particles := [] |} in
  (0 < 1) /\ weather_inv wea /\
  fst (updateWeather 1 {| cam_x := 0; cam_y := 0; cam_width := 100;
                          cam_height := 100 |} (fun _ => 0) init_world wea) =
    {| wtype := Clear; intensity := 0; timeLeft := (1 # 120) - 1 / 60;
       particles := [] |} /\
  weather_inv (fst (updateWeather 1 {| cam_x := 0; cam_y := 0; cam_width := 100;
                          cam_height := 100 |} (fun _ => 0) init_world wea)).
Proof.
  cbv zeta.
  split; [reflexivity |].
  split; [right; reflexivity |].
  split; [vm_compute; reflexivity |].
  refine (proj1 (proj2 (weather_transitions 1 _ (fun _ => 0) init_world _
            _ _ _))).
  - reflexivity.
  - intros n. apply Qle_refl.
  - right; reflexivity.
Defined.

Close Scope Q_scope.

(** ** Out-of-bounds access *)

Lemma inBounds_false tx ty :
  ~ (0 <= tx < WORLD_WIDTH /\ 0 <= ty < WORLD_HEIGHT) -> inBounds tx ty = false.
Proof.
  intros H. unfold inBounds.
  destruct (0 <=? tx) eqn:A, (0 <=? ty) eqn:B, (tx <? WORLD_WIDTH) eqn:C,
    (ty <? WORLD_HEIGHT) eqn:D; try reflexivity.
  exfalso. apply H. lia.
Qed.

(** C2: for every coordinate outside [0, WORLD_WIDTH) x [0, WORLD_HEIGHT),
    [getTile] returns the solid tile STONE and [setTile] returns the grid
    unchanged, whatever the grid and the tile. *)
Theorem out_of_bounds_access (w : grid) (tx ty id : Z)
  (Hout : ~ (0 <= tx < WORLD_WIDTH /\ 0 <= ty < WORLD_HEIGHT)) :
  getTile w tx ty = STONE /\ isSolid (getTile w tx ty) = true /\
  setTile w tx ty id = w.
Proof.
  unfold getTile, setTile. rewrite (inBounds_false tx ty Hout). cbn.
  split; [reflexivity | split; reflexivity].
Qed.

Lemma out_of_bounds_access_witness :
  ~ (0 <= -1 < WORLD_WIDTH /\ 0 <= 5 < WORLD_HEIGHT) /\
  getTile init_world (-1) 5 = STONE /\ isSolid (getTile init_world (-1) 5) = true /\
  setTile init_world (-1) 5 GLASS = init_world.
Proof.
  assert (H : ~ (0 <= -1 < WORLD_WIDTH /\ 0 <= 5 < WORLD_HEIGHT)) by lia.
  split; [exact H | exact (out_of_bounds_access init_world (-1) 5 GLASS H)].
Defined.

(** ** Spawning on the seed-1337 world *)

Open Scope Q_scope.

Lemma spawn_column_ok_sound (W : grid) (pos : Q * Q) :
  spawn_column_ok W = true ->
  getTile W (WORLD_WIDTH / 2) 65 = GRASS /\
  (forall y, (0 <= y < 65)%Z -> getTile W (WORLD_WIDTH / 2) y = AIR) /\
  fst (spawnPlayerOnSurface (getTile W) pos) == inject_Z WORLD_WIDTH / 2 * TS /\
  snd (spawnPlayerOnSurface (getTile W) pos) == inject_Z 65 * TS - 2 * TS.
Proof.
  intros K.
  unfold spawn_column_ok, spawnPlayerOnSurface in *.
  apply andb_true_iff in K as [K Sp]. apply andb_true_iff in K as [G Col].
  split; [apply Z.eqb_eq; exact G |].
  split.
  - intros y Hy.
    rewrite forallb_forall in Col.
    apply Z.eqb_eq, Col, in_map_iff.
    exists (Z.to_nat y). split; [lia |]. apply in_seq. lia.
  - revert Sp.
    destruct (spawn_scan _ _ _) as [[sx sy] |]; intros Sp; [| discriminate].
    apply andb_true_iff in Sp as [Sx Sy].
    apply Qeq_bool_iff in Sx, Sy. split; assumption.
Qed.

(** C9: on the world generated from seed 1337, the centre column
    [WORLD_WIDTH / 2] is Air from the top down to row 64 and Grass at row
    65, and [spawnPlayerOnSurface] puts the player at the centre of the
    world horizontally and exactly two tile heights above that Grass tile,
    wherever the player was before. *)
Theorem spawn_seed_1337 (pos : Q * Q) :
  let W := generateWorld 1337 init_world in
  let sp := spawnPlayerOnSurface (getTile W) pos in
  getTile W (WORLD_WIDTH / 2) 65 = GRASS /\
  (forall y, (0 <= y < 65)%Z -> getTile W (WORLD_WIDTH / 2) y = AIR) /\
  fst sp == inject_Z WORLD_WIDTH / 2 * TS /\
  snd sp == inject_Z 65 * TS - 2 * TS.
Proof.
  cbv zeta. apply spawn_column_ok_sound. vm_compute; reflexivity.
Qed.

Close Scope Q_scope.

(** ** Refused placements *)

Open Scope Q_scope.

Lemma intersects_axis (c pc pw : Q) :
  Qltb (Qabs (c + TS / 2 - pc)) ((TS + pw) / 2) = true <->
  c < pc + pw / 2 /\ pc - pw / 2 < c + TS.
Proof.
  rewrite Qltb_true, Qabs_diff_Qlt_condition. unfold Qdiv. change (/ 2) with (1 # 2).
  split; intros [A B]; split; lra.
Qed.

Lemma tile_corner (t : Z) : inject_Z (t * TILE_SIZE) == inject_Z t * TS.
Proof. unfold TS. rewrite inject_Z_mult. reflexivity. Qed.

(** C5: a placing click ([mouse.right] without [mouse.left]) leaves both
    the grid and the inventory unchanged when the target is not Air, or
    the selected hotbar tile is Air, or the selected tile is not Dirt and
    its inventory count is zero, or the target tile's square overlaps the
    player's box. *)
Theorem place_refused (w : grid) (inv : inventory) (p : player) (mtx mty : Z)
  (sel : nat)
  (Href : getTile w mtx mty <> AIR \/ HOTBAR !! sel = Some AIR \/
          (exists t, HOTBAR !! sel = Some t /\ t <> DIRT /\ count inv t = 0%Z) \/
          footprint_overlaps mtx mty p) :
  interact w inv p mtx mty false true sel = (w, inv).
Proof.
  unfold interact. cbv zeta.
  destruct (Qle_bool _ _); [| reflexivity].
  destruct (HOTBAR !! sel) as [pid |] eqn:Hs; [| reflexivity].
  destruct (negb (pid =? AIR)%Z && (getTile w mtx mty =? AIR)%Z) eqn:C1;
    [| reflexivity].
  apply andb_true_iff in C1 as [C1a C1b].
  apply negb_true_iff, Z.eqb_neq in C1a. apply Z.eqb_eq in C1b.
  destruct (has_positive inv pid || (pid =? DIRT)%Z) eqn:C2; [| reflexivity].
  destruct (negb (_ && _)) eqn:C3; [| reflexivity].
  exfalso.
  destruct Href as [H | [H | [(t & Ht & Hd & Hc) | H]]].
  - exact (H C1b).
  - injection H as ->. exact (C1a eq_refl).
  - injection Ht as <-.
    unfold has_positive, count in *.
    destruct (inv !! pid) as [c |]; cbn in Hc; [subst c |];
      apply Z.eqb_neq in Hd; rewrite Hd in C2; discriminate.
  - destruct H as (X1 & X2 & Y1 & Y2).
    rewrite negb_true_iff, andb_false_iff in C3.
    destruct C3 as [C | C].
    + apply not_true_iff_false in C. apply C, intersects_axis.
      rewrite tile_corner. split; assumption.
    + apply not_true_iff_false in C. apply C, intersects_axis.
      rewrite tile_corner. split; assumption.
Qed.

Lemma place_refused_witness :
  footprint_overlaps 100 0 initial_player /\
  getTile init_world 100 0 = AIR /\ HOTBAR !! 0%nat = Some DIRT /\
  interact init_world ∅ initial_player 100 0 false true 0 = (init_world, ∅).
Proof.
  assert (H : footprint_overlaps 100 0 initial_player)
    by (unfold footprint_overlaps; repeat split; vm_compute; reflexivity).
  split; [exact H |].
  split; [vm_compute; reflexivity |].
  split; [reflexivity |].
  apply place_refused. right. right. right. exact H.
Defined.

Close Scope Q_scope.

(** ** Determinism of world generation *)

Lemma regenerates_sound (seed : Z) (W : grid) :
  regenerates seed W = true -> generateWorld seed W = W.
Proof. unfold regenerates. apply bool_decide_eq_true_1. Qed.

(** C1: the generator of src/main.js is not a function of the seed alone.
    With seed 1337, a [Math.random()] that returns 0 puts a stone patch in
    column 0 and leaves Stone at row 71; one that returns 0.5 leaves Dirt
    there. The generator of part_001, which draws only from the seeded
    [mulberry32], rebuilds the same grid when called a second time on the
    world its first call produced. *)
Theorem generateWorld_main_depends_on_Math_random :
  getTile (generateWorld_main (fun _ => 0%Q) 1337 init_world) 0 71 = STONE /\
  getTile (generateWorld_main (fun _ => (1 # 2)%Q) 1337 init_world) 0 71 = DIRT /\
  generateWorld 1337 (generateWorld 1337 init_world) = generateWorld 1337 init_world.
Proof.
  split; [vm_compute; reflexivity |].
  split; [vm_compute; reflexivity |].
  apply regenerates_sound. vm_compute; reflexivity.
Qed.
